(** * OptionSet: a set of options stored as the bits of an unsigned integer

    Shallow embedding of the class template [swift::OptionSet] of
    [include/swift/Basic/OptionSet.h] and verification of its set algebra.

    The template has two parameters.  [Flags] is an enumeration type; all the
    class ever does with one of its values is [static_cast] it to the storage
    type, so an enumeration is modelled as a type together with the integer
    value of each enumerator (class [Enumeration]).  [StorageType] is an
    unsigned integral type; it is modelled as the machine words of coqutil at
    an arbitrary positive number of bits, whose operations wrap modulo
    [2 ^ bits] exactly as C++ unsigned arithmetic does. *)

From Stdlib Require Import ZArith Zbitwise Bool Lia.
From coqutil Require Import Word.Interface Word.Properties Word.Naive.

Local Open Scope Z_scope.
Local Open Scope bool_scope.

(** ** Template parameters *)

(** [std::underlying_type<Flags>]: the integer value of every enumerator. *)
Class Enumeration (Flags : Type) : Type :=
  underlying : Flags -> Z.

(** The unsigned integral type of [bits] bits, with its operations. *)
#[global] Instance StorageType_word (bits : positive) : word.word (Z.pos bits) :=
  Naive.word (Z.pos bits).

Definition StorageType (bits : positive) : Type :=
  @word.rep (Z.pos bits) (StorageType_word bits).

#[global] Instance StorageType_ok (bits : positive) : word.ok (StorageType_word bits) :=
  Naive.ok (Z.pos bits) eq_refl.

(** ** The class *)

(** [template<typename Flags, typename StorageType> class OptionSet
      { StorageType Storage; ... }].  The enumeration only indexes the type:
    sets over different enumerations, or over different storage types, are
    values of different types and cannot be combined. *)
Record OptionSet (Flags : Type) (bits : positive) : Type :=
  MkOptionSet { Storage : StorageType bits }.

Arguments MkOptionSet {Flags bits} _.
Arguments Storage {Flags bits} _.

Section OptionSetClass.

Context {Flags : Type} {FlagsEnum : Enumeration Flags}.
Context {bits : positive}.

(** [OptionSet() : Storage() { }]: value-initialisation gives zero. *)
Definition OptionSet_empty : OptionSet Flags bits :=
  MkOptionSet (word.of_Z 0).

(** [OptionSet(llvm::NoneType) : Storage() { }] *)
Definition OptionSet_none (_ : unit) : OptionSet Flags bits :=
  MkOptionSet (word.of_Z 0).

(** [OptionSet(Flags flag) : Storage(static_cast<StorageType>(flag)) { }]:
    the conversion of the enumerator's value to the unsigned type is
    modular. *)
Definition OptionSet_flag (flag : Flags) : OptionSet Flags bits :=
  MkOptionSet (word.of_Z (underlying flag)).

(** [explicit OptionSet(StorageType storage) : Storage(storage) { }] *)
Definition OptionSet_raw (storage : StorageType bits) : OptionSet Flags bits :=
  MkOptionSet storage.

(** [explicit operator bool() const { return Storage != 0; }] *)
Definition operator_bool (self : OptionSet Flags bits) : bool :=
  negb (word.eqb (Storage self) (word.of_Z 0)).

(** [explicit operator StorageType() const { return Storage; }] *)
Definition operator_StorageType (self : OptionSet Flags bits) : StorageType bits :=
  Storage self.

(** [operator|]: [return OptionSet(lhs.Storage | rhs.Storage);] *)
Definition operator_or (lhs rhs : OptionSet Flags bits) : OptionSet Flags bits :=
  OptionSet_raw (word.or (Storage lhs) (Storage rhs)).

(** [operator|=]: [lhs.Storage |= rhs.Storage; return lhs;].  The reference
    parameter is threaded: the result is the updated [lhs]. *)
Definition operator_or_assign (lhs rhs : OptionSet Flags bits) : OptionSet Flags bits :=
  MkOptionSet (word.or (Storage lhs) (Storage rhs)).

(** [operator&]: [return OptionSet(lhs.Storage & rhs.Storage);] *)
Definition operator_and (lhs rhs : OptionSet Flags bits) : OptionSet Flags bits :=
  OptionSet_raw (word.and (Storage lhs) (Storage rhs)).

(** [operator&=]: [lhs.Storage &= rhs.Storage; return lhs;] *)
Definition operator_and_assign (lhs rhs : OptionSet Flags bits) : OptionSet Flags bits :=
  MkOptionSet (word.and (Storage lhs) (Storage rhs)).

(** [operator~]: [return OptionSet(~set.Storage);].  For a storage type
    narrower than [int] the operand is promoted, negated as an [int] and
    converted back to the storage type by the constructor call; lemma
    [not_promoted] below shows that this is the negation at [bits] bits. *)
Definition operator_not (set : OptionSet Flags bits) : OptionSet Flags bits :=
  OptionSet_raw (word.not (Storage set)).

(** [operator-]: [return OptionSet(lhs.Storage & ~rhs.Storage);] (see
    [and_not_promoted] for narrow storage types). *)
Definition operator_sub (lhs rhs : OptionSet Flags bits) : OptionSet Flags bits :=
  OptionSet_raw (word.and (Storage lhs) (word.not (Storage rhs))).

(** [operator-=]: [lhs.Storage &= ~rhs.Storage; return lhs;] *)
Definition operator_sub_assign (lhs rhs : OptionSet Flags bits) : OptionSet Flags bits :=
  MkOptionSet (word.and (Storage lhs) (word.not (Storage rhs))).

(** [bool contains(OptionSet set) const]:
    [return static_cast<bool>( *this & set );] *)
Definition contains (self set : OptionSet Flags bits) : bool :=
  operator_bool (operator_and self set).

(** The raw value of a set: its storage read as an unsigned number. *)
Definition raw_value (self : OptionSet Flags bits) : Z :=
  word.unsigned (operator_StorageType self).

(** The test the specification gives for containment, [(self & other) ==
    other], written with the class's own intersection.  It is not part of the
    source; [contains] is compared with it below. *)
Definition subset_test (self other : OptionSet Flags bits) : bool :=
  word.eqb (Storage (operator_and self other)) (Storage other).

(** The bit pattern of the storage type with every bit set. *)
Definition all_ones : StorageType bits :=
  word.of_Z (2 ^ Z.pos bits - 1).

End OptionSetClass.

Arguments OptionSet_empty {Flags bits}.
Arguments OptionSet_none {Flags bits} _.
Arguments OptionSet_raw {Flags bits} storage.
Arguments all_ones {bits}.

(** Exposes the storage operations behind the members of the class. *)
Ltac unfold_members :=
  unfold raw_value, subset_test, contains, operator_bool, operator_StorageType,
    operator_or, operator_or_assign, operator_and, operator_and_assign,
    operator_not, operator_sub, operator_sub_assign,
    OptionSet_raw, OptionSet_flag, OptionSet_none, OptionSet_empty;
  cbn [Storage].

(** ** A concrete enumeration *)

(** [enum Permission { Read = 1, Write = 2, Execute = 4 };] *)
Inductive Permission : Type := Read | Write | Execute.

#[global] Instance Permission_enum : Enumeration Permission :=
  fun flag =>
    match flag with
    | Read => 1
    | Write => 2
    | Execute => 4
    end.

(** [OptionSet<Permission>(Read) | OptionSet<Permission>(Write)], the set of
    the scenario below. *)
Definition ReadWrite (bits : positive) : OptionSet Permission bits :=
  operator_or (OptionSet_flag Read) (OptionSet_flag Write).

(** ** Facts about the storage type *)

Section StorageFacts.

Context {bits : positive}.

Implicit Types a b c : StorageType bits.

(** A word has no bit at or above position [bits]. *)
Lemma testbit_high a i :
  Z.pos bits <= i -> Z.testbit (word.unsigned a) i = false.
Proof.
  intros Hi. pose proof (word.unsigned_range a) as Hrange.
  rewrite <- (Z.mod_small (word.unsigned a) (2 ^ Z.pos bits)) by exact Hrange.
  apply Z.mod_pow2_bits_high. lia.
Qed.

(** Two words are equal when they agree on every bit below [bits]. *)
Lemma storage_bits_eq a b :
  (forall i, 0 <= i < Z.pos bits ->
             Z.testbit (word.unsigned a) i = Z.testbit (word.unsigned b) i) ->
  a = b.
Proof.
  intros Hbits. apply word.unsigned_inj. apply Z.bits_inj'. intros i Hi.
  destruct (Z.ltb_spec i (Z.pos bits)) as [Hlt | Hge].
  - apply Hbits. lia.
  - rewrite !testbit_high by lia. reflexivity.
Qed.

Lemma testbit_or a b i :
  0 <= i < Z.pos bits ->
  Z.testbit (word.unsigned (word.or a b)) i =
  Z.testbit (word.unsigned a) i || Z.testbit (word.unsigned b) i.
Proof. intros _. rewrite word.unsigned_or_nowrap. apply Z.lor_spec. Qed.

Lemma testbit_and a b i :
  0 <= i < Z.pos bits ->
  Z.testbit (word.unsigned (word.and a b)) i =
  Z.testbit (word.unsigned a) i && Z.testbit (word.unsigned b) i.
Proof. intros _. rewrite word.unsigned_and_nowrap. apply Z.land_spec. Qed.

Lemma testbit_not a i :
  0 <= i < Z.pos bits ->
  Z.testbit (word.unsigned (word.not a)) i = negb (Z.testbit (word.unsigned a) i).
Proof.
  intros Hi. rewrite word.unsigned_not, word.testbit_wrap, Z.lnot_spec by lia.
  replace (i <? Z.pos bits) with true by (symmetry; apply Z.ltb_lt; lia).
  reflexivity.
Qed.

Lemma testbit_zero i : Z.testbit (word.unsigned (word.of_Z 0 : StorageType bits)) i = false.
Proof. rewrite word.unsigned_of_Z_0. apply Z.testbit_0_l. Qed.

Lemma testbit_all_ones i :
  0 <= i < Z.pos bits ->
  Z.testbit (word.unsigned (all_ones : StorageType bits)) i = true.
Proof.
  intros Hi. unfold all_ones.
  rewrite word.unsigned_of_Z, word.testbit_wrap.
  replace (2 ^ Z.pos bits - 1) with (Z.ones (Z.pos bits))
    by (rewrite Z.ones_equiv; lia).
  rewrite Z.ones_spec_low by lia.
  replace (i <? Z.pos bits) with true by (symmetry; apply Z.ltb_lt; lia).
  reflexivity.
Qed.

End StorageFacts.

(** Reduces an equation between words to an equation between the bits. *)
Ltac bitwise :=
  apply storage_bits_eq; intros ?i ?Hi;
  repeat first
    [ rewrite testbit_or by assumption
    | rewrite testbit_and by assumption
    | rewrite testbit_not by assumption
    | rewrite testbit_zero
    | rewrite testbit_all_ones by assumption ];
  repeat match goal with
         | |- context [Z.testbit ?z ?i] => destruct (Z.testbit z i)
         end;
  reflexivity.

Section StorageAlgebra.

Context {bits : positive}.

Implicit Types a b c : StorageType bits.

Lemma or_commutative a b : word.or a b = word.or b a.
Proof. bitwise. Qed.

Lemma or_associative a b c : word.or (word.or a b) c = word.or a (word.or b c).
Proof. bitwise. Qed.

Lemma or_zero_l a : word.or (word.of_Z 0) a = a.
Proof. bitwise. Qed.

Lemma and_commutative a b : word.and a b = word.and b a.
Proof. bitwise. Qed.

Lemma and_associative a b c : word.and (word.and a b) c = word.and a (word.and b c).
Proof. bitwise. Qed.

Lemma and_zero_l a : word.and (word.of_Z 0) a = word.of_Z 0.
Proof. bitwise. Qed.

Lemma and_idempotent a : word.and a a = a.
Proof. bitwise. Qed.

Lemma and_not_self a : word.and a (word.not a) = word.of_Z 0.
Proof. bitwise. Qed.

Lemma or_not_self a : word.or a (word.not a) = all_ones.
Proof. bitwise. Qed.

(** Integer promotion does not show: negating in a wider signed type and
    converting back is the negation at [bits] bits. *)
Lemma not_promoted a : word.of_Z (Z.lnot (word.unsigned a)) = word.not a.
Proof.
  apply word.unsigned_inj. rewrite word.unsigned_of_Z, word.unsigned_not.
  reflexivity.
Qed.

Lemma and_not_promoted a b :
  word.of_Z (Z.land (word.unsigned a) (Z.lnot (word.unsigned b))) =
  word.and a (word.not b).
Proof.
  apply storage_bits_eq. intros i Hi.
  rewrite testbit_and, testbit_not by assumption.
  rewrite word.unsigned_of_Z, word.testbit_wrap, Z.land_spec, Z.lnot_spec by lia.
  replace (i <? Z.pos bits) with true by (symmetry; apply Z.ltb_lt; lia).
  reflexivity.
Qed.

(** A small number is its own bit pattern. *)
Lemma unsigned_small z :
  0 <= z < 2 ^ Z.pos bits -> word.unsigned (word.of_Z z : StorageType bits) = z.
Proof.
  intros Hz. rewrite word.unsigned_of_Z. unfold word.wrap.
  apply Z.mod_small. exact Hz.
Qed.

Lemma all_ones_value :
  word.unsigned (all_ones : StorageType bits) = 2 ^ Z.pos bits - 1.
Proof.
  unfold all_ones. apply unsigned_small.
  assert (0 < 2 ^ Z.pos bits) by (apply Z.pow_pos_nonneg; lia). lia.
Qed.

Lemma two_le_modulus : 2 <= 2 ^ Z.pos bits.
Proof.
  change 2 with (2 ^ 1) at 1. apply Z.pow_le_mono_r; lia.
Qed.

End StorageAlgebra.

(** ** Basic facts about the class *)

Section OptionSetFacts.

Context {Flags : Type} {FlagsEnum : Enumeration Flags}.
Context {bits : positive}.

Implicit Types x y z : OptionSet Flags bits.

(** The class has one field, so two sets are equal when their storages
    are. *)
Lemma OptionSet_eq x y : Storage x = Storage y -> x = y.
Proof. destruct x, y. cbn [Storage]. intros ->. reflexivity. Qed.

Lemma raw_value_empty : raw_value (@OptionSet_empty Flags bits) = 0.
Proof. unfold_members. apply word.unsigned_of_Z_0. Qed.

Lemma raw_value_range x : 0 <= raw_value x < 2 ^ Z.pos bits.
Proof. apply word.unsigned_range. Qed.

Lemma raw_value_flag (flag : Flags) :
  raw_value (OptionSet_flag flag : OptionSet Flags bits) =
  underlying flag mod 2 ^ Z.pos bits.
Proof. unfold_members. apply word.unsigned_of_Z. Qed.

Lemma raw_value_or x y :
  raw_value (operator_or x y) = Z.lor (raw_value x) (raw_value y).
Proof. unfold_members. apply word.unsigned_or_nowrap. Qed.

Lemma raw_value_and x y :
  raw_value (operator_and x y) = Z.land (raw_value x) (raw_value y).
Proof. unfold_members. apply word.unsigned_and_nowrap. Qed.

Lemma raw_value_not x :
  raw_value (operator_not x) = Z.lnot (raw_value x) mod 2 ^ Z.pos bits.
Proof. unfold_members. apply word.unsigned_not. Qed.

Lemma raw_value_sub x y :
  raw_value (operator_sub x y) =
  Z.land (raw_value x) (Z.lnot (raw_value y)) mod 2 ^ Z.pos bits.
Proof.
  unfold_members. rewrite <- and_not_promoted.
  apply word.unsigned_of_Z.
Qed.

(** The conversion to [bool] tells whether some bit is set. *)
Lemma operator_bool_raw_value x : operator_bool x = negb (raw_value x =? 0).
Proof.
  unfold_members.
  rewrite word.unsigned_eqb, word.unsigned_of_Z_0. reflexivity.
Qed.

(** What [contains] computes: whether the two sets share a bit. *)
Lemma contains_raw_value x y :
  contains x y = negb (Z.land (raw_value x) (raw_value y) =? 0).
Proof.
  unfold contains. rewrite operator_bool_raw_value, raw_value_and.
  reflexivity.
Qed.

(** The specification's test: whether every bit of [y] is a bit of [x]. *)
Lemma subset_test_raw_value x y :
  subset_test x y = (Z.land (raw_value x) (raw_value y) =? raw_value y).
Proof.
  unfold_members.
  rewrite word.unsigned_eqb, word.unsigned_and_nowrap. reflexivity.
Qed.

(** The compound assignments leave in [lhs] what the binary operators
    return. *)
Lemma operator_or_assign_eq x y : operator_or_assign x y = operator_or x y.
Proof. reflexivity. Qed.

Lemma operator_and_assign_eq x y : operator_and_assign x y = operator_and x y.
Proof. reflexivity. Qed.

Lemma operator_sub_assign_eq x y : operator_sub_assign x y = operator_sub x y.
Proof. reflexivity. Qed.

Lemma OptionSet_none_eq : OptionSet_none tt = @OptionSet_empty Flags bits.
Proof. reflexivity. Qed.

End OptionSetFacts.

(** ** Containment *)

(** C10: as implemented, [contains] is symmetric: [x.contains(y)] and
    [y.contains(x)] return the same boolean, for every two sets over the same
    enumeration and storage type. *)
Theorem contains_symmetric (Flags : Type) (bits : positive)
    (x y : OptionSet Flags bits) :
  contains x y = contains y x.
Proof.
  unfold contains, operator_and, OptionSet_raw.
  rewrite and_commutative. reflexivity.
Qed.

(** C1: [contains] evaluated where it parts from the test
    [(x & y) == y].  At 32 bits, [{Read}] does not include [{Read, Write}],
    yet [contains] answers true because the two sets share a bit; and
    [{Read, Write}] includes the empty set, yet [contains] answers false
    because the intersection is empty. *)
Theorem contains_differs_from_subset_test :
  contains (OptionSet_flag Read) (ReadWrite 32) = true /\
  subset_test (OptionSet_flag Read) (ReadWrite 32) = false /\
  contains (ReadWrite 32) OptionSet_empty = false /\
  subset_test (ReadWrite 32) OptionSet_empty = true.
Proof. vm_compute. repeat split. Qed.

(** C2: [contains] evaluated on a set and itself: the answer is the
    conversion of the set to [bool], so it is true for every non-empty set
    and false for the empty set, at every enumeration and storage width. *)
Theorem contains_self (Flags : Type) (bits : positive) :
  (forall x : OptionSet Flags bits, contains x x = operator_bool x) /\
  contains (@OptionSet_empty Flags bits) OptionSet_empty = false.
Proof.
  split.
  - intros x. unfold contains, operator_and, OptionSet_raw.
    rewrite and_idempotent. destruct x. reflexivity.
  - rewrite contains_raw_value, (@raw_value_empty Flags bits). reflexivity.
Qed.

(** ** The emptiness test *)

(** C4, as amended: the conversion to [bool] returns true if and only if the
    storage is not 0 (it tests that the set is not empty); it is false on
    the empty set and true on the set of the enumerator [Read], whose value
    1 is not zero, whatever the storage width. *)
Theorem operator_bool_nonempty :
  (forall (Flags : Type) (bits : positive) (x : OptionSet Flags bits),
      operator_bool x = negb (raw_value x =? 0)) /\
  (forall (Flags : Type) (bits : positive),
      operator_bool (@OptionSet_empty Flags bits) = false) /\
  (forall bits : positive,
      operator_bool (OptionSet_flag Read : OptionSet Permission bits) = true).
Proof.
  split; [| split].
  - intros Flags bits x. apply operator_bool_raw_value.
  - intros Flags bits. rewrite operator_bool_raw_value, (@raw_value_empty Flags bits).
    reflexivity.
  - intros bits. rewrite operator_bool_raw_value, raw_value_flag.
    pose proof (@two_le_modulus bits) as Hmod.
    change (underlying Read) with 1.
    rewrite Z.mod_small by lia. reflexivity.
Qed.

(** C4, as stated, fails on the empty set over an 8-bit storage: its storage
    is 0 and its conversion to [bool] is false. *)
Lemma operator_bool_empty_counterexample :
  ~ (operator_bool (@OptionSet_empty Permission 8) = true <->
     raw_value (@OptionSet_empty Permission 8) = 0).
Proof.
  intros [_ Hzero].
  assert (Hbool : operator_bool (@OptionSet_empty Permission 8) = true)
    by (apply Hzero; reflexivity).
  vm_compute in Hbool. discriminate Hbool.
Qed.

(** ** Union, intersection, difference and complement *)

(** C5: the union is commutative and associative, and the empty set is its
    identity. *)
Theorem union_laws (Flags : Type) (bits : positive)
    (x y z : OptionSet Flags bits) :
  operator_or x y = operator_or y x /\
  operator_or (operator_or x y) z = operator_or x (operator_or y z) /\
  operator_or OptionSet_empty x = x.
Proof.
  split; [| split]; apply OptionSet_eq; unfold_members.
  - apply or_commutative.
  - apply or_associative.
  - apply or_zero_l.
Qed.

(** C6: the intersection is commutative and associative, and the empty set
    absorbs. *)
Theorem intersect_laws (Flags : Type) (bits : positive)
    (x y z : OptionSet Flags bits) :
  operator_and x y = operator_and y x /\
  operator_and (operator_and x y) z = operator_and x (operator_and y z) /\
  operator_and OptionSet_empty x = OptionSet_empty.
Proof.
  split; [| split]; apply OptionSet_eq; unfold_members.
  - apply and_commutative.
  - apply and_associative.
  - apply and_zero_l.
Qed.

(** C7: the difference of a set and itself, [x.Storage & ~x.Storage], is the
    empty set. *)
Theorem difference_self (Flags : Type) (bits : positive)
    (x : OptionSet Flags bits) :
  operator_sub x x = OptionSet_empty /\
  Storage (operator_sub x x) = word.and (Storage x) (word.not (Storage x)).
Proof.
  split.
  - apply OptionSet_eq. unfold_members. apply and_not_self.
  - reflexivity.
Qed.

(** C8: the union of a set and its complement is the set built from the
    all-ones pattern of the storage type, of raw value [2 ^ bits - 1]; the
    complement of the empty set over an 8-bit storage has raw value 255. *)
Theorem union_complement_all_ones :
  (forall (Flags : Type) (bits : positive) (x : OptionSet Flags bits),
      operator_or x (operator_not x) = OptionSet_raw all_ones /\
      raw_value (operator_or x (operator_not x)) = 2 ^ Z.pos bits - 1) /\
  (forall Flags : Type,
      raw_value (operator_not (@OptionSet_empty Flags 8)) = 255).
Proof.
  split.
  - intros Flags bits x.
    assert (Hunion : operator_or x (operator_not x) = OptionSet_raw all_ones)
      by (apply OptionSet_eq; unfold_members; apply or_not_self).
    split; [exact Hunion |].
    rewrite Hunion. unfold_members. apply all_ones_value.
  - intros Flags. vm_compute. reflexivity.
Qed.

(** ** Raw storage *)

(** C9: the constructor from raw storage keeps the bits it is given and the
    conversion to the storage type returns the stored bits: converting
    after constructing gives back the bit pattern, constructing after
    converting gives back the set, and an integer comes back reduced modulo
    [2 ^ bits], that is unchanged when it is a value of the storage type. *)
Theorem raw_round_trip (Flags : Type) (bits : positive) :
  (forall b : StorageType bits,
      operator_StorageType (@OptionSet_raw Flags bits b) = b) /\
  (forall x : OptionSet Flags bits,
      operator_StorageType
        (@OptionSet_raw Flags bits (operator_StorageType x)) =
      operator_StorageType x) /\
  (forall x : OptionSet Flags bits,
      OptionSet_raw (operator_StorageType x) = x) /\
  (forall n : Z,
      raw_value (@OptionSet_raw Flags bits (word.of_Z n)) =
      n mod 2 ^ Z.pos bits).
Proof.
  split; [| split; [| split]].
  - intros b. reflexivity.
  - intros x. reflexivity.
  - intros x. destruct x. reflexivity.
  - intros n. unfold_members. apply word.unsigned_of_Z.
Qed.

(** ** The scenario with [Read], [Write] and [Execute] *)

(** C3: over any storage type of at least three bits, [Read | Write] has raw
    value 3, contains [Read], does not contain [Execute], and its difference
    with [Write] has raw value 1 and is the set of [Read]. *)
Theorem permission_scenario (bits : positive) :
  (3 <= bits)%positive ->
  raw_value (ReadWrite bits) = 3 /\
  contains (ReadWrite bits) (OptionSet_flag Read) = true /\
  contains (ReadWrite bits) (OptionSet_flag Execute) = false /\
  raw_value (operator_sub (ReadWrite bits) (OptionSet_flag Write)) = 1 /\
  operator_sub (ReadWrite bits) (OptionSet_flag Write) = OptionSet_flag Read.
Proof.
  intros Hbits.
  assert (Hmod : 8 <= 2 ^ Z.pos bits).
  { change 8 with (2 ^ 3). apply Z.pow_le_mono_r; lia. }
  assert (Hflag : forall flag : Permission,
             raw_value (OptionSet_flag flag : OptionSet Permission bits) =
             underlying flag).
  { intros flag. rewrite raw_value_flag. apply Z.mod_small.
    destruct flag; cbv [underlying Permission_enum]; lia. }
  assert (Hrw : raw_value (ReadWrite bits) = 3).
  { unfold ReadWrite. rewrite raw_value_or, !Hflag. reflexivity. }
  assert (Hsub : raw_value (operator_sub (ReadWrite bits) (OptionSet_flag Write)) = 1).
  { rewrite raw_value_sub, Hrw, Hflag.
    change (Z.land 3 (Z.lnot (underlying Write))) with 1.
    apply Z.mod_small. lia. }
  split; [| split; [| split; [| split]]].
  - exact Hrw.
  - rewrite contains_raw_value, Hrw, Hflag. reflexivity.
  - rewrite contains_raw_value, Hrw, Hflag. reflexivity.
  - exact Hsub.
  - apply OptionSet_eq. apply word.unsigned_inj.
    change (raw_value (operator_sub (ReadWrite bits) (OptionSet_flag Write)) =
            raw_value (OptionSet_flag Read : OptionSet Permission bits)).
    rewrite Hsub, Hflag. reflexivity.
Qed.

Lemma permission_scenario_witness :
  (3 <= 32)%positive /\
  raw_value (ReadWrite 32) = 3 /\
  contains (ReadWrite 32) (OptionSet_flag Read) = true /\
  contains (ReadWrite 32) (OptionSet_flag Execute) = false /\
  raw_value (operator_sub (ReadWrite 32) (OptionSet_flag Write)) = 1 /\
  operator_sub (ReadWrite 32) (OptionSet_flag Write) = OptionSet_flag Read.
Proof.
  split.
  - lia.
  - apply (permission_scenario 32). lia.
Defined.

(** ** Further laws of the set operations *)

(** Reduces an equation between sets to an equation between the bits of
    their storages. *)
Ltac set_bitwise := apply OptionSet_eq; unfold_members; bitwise.

(** The complement is an involution: complementing twice gives the set
    back, at every storage width. *)
Theorem complement_involutive (Flags : Type) (bits : positive)
    (x : OptionSet Flags bits) :
  operator_not (operator_not x) = x.
Proof. set_bitwise. Qed.

(** De Morgan: the complement of a union is the intersection of the
    complements, and the complement of an intersection is the union of the
    complements. *)
Theorem complement_de_morgan (Flags : Type) (bits : positive)
    (x y : OptionSet Flags bits) :
  operator_not (operator_or x y) = operator_and (operator_not x) (operator_not y) /\
  operator_not (operator_and x y) = operator_or (operator_not x) (operator_not y).
Proof. split; set_bitwise. Qed.

(** Union and intersection are idempotent and absorb each other. *)
Theorem union_intersect_absorption (Flags : Type) (bits : positive)
    (x y : OptionSet Flags bits) :
  operator_or x x = x /\
  operator_and x x = x /\
  operator_or x (operator_and x y) = x /\
  operator_and x (operator_or x y) = x.
Proof. split; [| split; [| split]]; set_bitwise. Qed.

(** Union and intersection distribute over each other. *)
Theorem union_intersect_distributive (Flags : Type) (bits : positive)
    (x y z : OptionSet Flags bits) :
  operator_and x (operator_or y z) =
    operator_or (operator_and x y) (operator_and x z) /\
  operator_or x (operator_and y z) =
    operator_and (operator_or x y) (operator_or x z).
Proof. split; set_bitwise. Qed.

(** The complement of the empty set is the all-ones pattern of the storage
    type; it is the identity of the intersection and absorbs in the union,
    and its own complement is the empty set again. *)
Theorem complement_empty_is_top (Flags : Type) (bits : positive)
    (x : OptionSet Flags bits) :
  operator_not OptionSet_empty = @OptionSet_raw Flags bits all_ones /\
  operator_and (operator_not OptionSet_empty) x = x /\
  operator_or (operator_not OptionSet_empty) x = operator_not OptionSet_empty /\
  operator_not (@OptionSet_raw Flags bits all_ones) = OptionSet_empty.
Proof. split; [| split; [| split]]; set_bitwise. Qed.

(** The difference splits a set in two disjoint parts: [x - y] shares no
    option with [y], and together with [x & y] it gives [x] back. *)
Theorem difference_partition (Flags : Type) (bits : positive)
    (x y : OptionSet Flags bits) :
  operator_and (operator_sub x y) y = OptionSet_empty /\
  operator_and (operator_sub x y) (operator_and x y) = OptionSet_empty /\
  operator_or (operator_sub x y) (operator_and x y) = x.
Proof. split; [| split]; set_bitwise. Qed.

(** The difference at the empty set and against unions: removing nothing
    changes nothing, nothing can be removed from the empty set, options
    just added by a union are removed again, and removing from [x] what
    [x - y] holds leaves the intersection. *)
Theorem difference_laws (Flags : Type) (bits : positive)
    (x y : OptionSet Flags bits) :
  operator_sub x OptionSet_empty = x /\
  operator_sub OptionSet_empty x = OptionSet_empty /\
  operator_sub (operator_or x y) y = operator_sub x y /\
  operator_sub x (operator_sub x y) = operator_and x y.
Proof. split; [| split; [| split]]; set_bitwise. Qed.

(** The complement is the difference from the all-ones set, and the
    difference is the intersection with the complement. *)
Theorem complement_as_difference (Flags : Type) (bits : positive)
    (x y : OptionSet Flags bits) :
  operator_not x = operator_sub (OptionSet_raw all_ones) x /\
  operator_sub x y = operator_not (operator_or (operator_not x) y).
Proof. split; set_bitwise. Qed.

(** Sequences of compound assignments.  [x |= y; x -= y;] leaves [x - y];
    [x -= y; x |= y;] leaves [x | y]; [x &= y; x |= y;] leaves [y]; and
    each compound assignment repeated with the same operand changes nothing
    the second time. *)
Theorem compound_assignment_sequences (Flags : Type) (bits : positive)
    (x y : OptionSet Flags bits) :
  operator_sub_assign (operator_or_assign x y) y = operator_sub x y /\
  operator_or_assign (operator_sub_assign x y) y = operator_or x y /\
  operator_or_assign (operator_and_assign x y) y = y /\
  operator_or_assign (operator_or_assign x y) y = operator_or_assign x y /\
  operator_and_assign (operator_and_assign x y) y = operator_and_assign x y /\
  operator_sub_assign (operator_sub_assign x y) y = operator_sub_assign x y.
Proof. split; [| split; [| split; [| split; [| split]]]]; set_bitwise. Qed.

(** ** Bits, emptiness and numeric values *)

Section BitFacts.

Context {Flags : Type} {FlagsEnum : Enumeration Flags}.
Context {bits : positive}.

Implicit Types x y z : OptionSet Flags bits.

(** A set converts to [true] exactly when one of its bits is set. *)
Lemma operator_bool_bit x :
  operator_bool x = true <->
  exists i, 0 <= i < Z.pos bits /\ Z.testbit (raw_value x) i = true.
Proof.
  rewrite operator_bool_raw_value, negb_true_iff, Z.eqb_neq.
  pose proof (raw_value_range x) as Hrange. split.
  - intros Hne. exists (Z.log2 (raw_value x)).
    assert (Hpos : 0 < raw_value x) by lia.
    split; [split |].
    + apply Z.log2_nonneg.
    + apply Z.log2_lt_pow2; lia.
    + apply Z.bit_log2. exact Hpos.
  - intros [i [_ Hbit]] Hzero. rewrite Hzero, Z.testbit_0_l in Hbit.
    discriminate Hbit.
Qed.

(** A set converts to [false] exactly when it is the empty set. *)
Lemma operator_bool_false x :
  operator_bool x = false <-> x = OptionSet_empty.
Proof.
  rewrite operator_bool_raw_value, negb_false_iff, Z.eqb_eq. split.
  - intros Hzero. apply OptionSet_eq. apply word.unsigned_inj.
    change (raw_value x = raw_value (@OptionSet_empty Flags bits)).
    rewrite (@raw_value_empty Flags bits). exact Hzero.
  - intros ->. apply raw_value_empty.
Qed.

(** The bits of the set of an enumerator whose value is a power of two below
    the width of the storage: only the bit of the enumerator is set. *)
Lemma testbit_flag (flag : Flags) i j :
  0 <= i < Z.pos bits -> underlying flag = 2 ^ i ->
  Z.testbit (raw_value (OptionSet_flag flag : OptionSet Flags bits)) j = (i =? j).
Proof.
  intros Hi Hflag. rewrite raw_value_flag, Hflag.
  rewrite Z.mod_small.
  - apply Z.pow2_bits_eqb. lia.
  - split; [apply Z.pow_nonneg; lia | apply Z.pow_lt_mono_r; lia].
Qed.

(** [contains] with the set of such an enumerator reads the enumerator's
    bit. *)
Lemma contains_flag_testbit x (flag : Flags) i :
  0 <= i < Z.pos bits -> underlying flag = 2 ^ i ->
  contains x (OptionSet_flag flag) = Z.testbit (raw_value x) i.
Proof.
  intros Hi Hflag. rewrite contains_raw_value.
  destruct (Z.testbit (raw_value x) i) eqn:Hbit.
  - apply negb_true_iff, Z.eqb_neq. intros Hzero.
    assert (Hland : Z.testbit (Z.land (raw_value x)
                      (raw_value (OptionSet_flag flag : OptionSet Flags bits))) i = true).
    { rewrite Z.land_spec, Hbit, (testbit_flag flag i i Hi Hflag), Z.eqb_refl.
      reflexivity. }
    rewrite Hzero, Z.testbit_0_l in Hland. discriminate Hland.
  - apply negb_false_iff, Z.eqb_eq. apply Z.bits_inj_0. intros j.
    rewrite Z.land_spec, (testbit_flag flag i j Hi Hflag).
    destruct (Z.eqb_spec i j) as [<- | Hne].
    + rewrite Hbit. reflexivity.
    + apply andb_false_r.
Qed.

End BitFacts.

Section ContainsFacts.

Context {Flags : Type}.
Context {bits : positive}.

Implicit Types x y z : OptionSet Flags bits.

Lemma lor_eqb_0 (p q : Z) : (Z.lor p q =? 0) = (p =? 0) && (q =? 0).
Proof.
  destruct (Z.eqb_spec (Z.lor p q) 0) as [Hzero | Hne].
  - apply Z.lor_eq_0_iff in Hzero. destruct Hzero as [-> ->]. reflexivity.
  - destruct (Z.eqb_spec p 0) as [-> | Hp]; [| reflexivity].
    destruct (Z.eqb_spec q 0) as [-> | Hq]; [| reflexivity].
    exfalso. apply Hne. reflexivity.
Qed.

Lemma contains_or_l x y z :
  contains (operator_or x y) z = contains x z || contains y z.
Proof.
  rewrite !contains_raw_value, raw_value_or, Z.land_lor_distr_l, lor_eqb_0.
  apply negb_andb.
Qed.

Lemma contains_or_r x y z :
  contains x (operator_or y z) = contains x y || contains x z.
Proof.
  rewrite !contains_raw_value, raw_value_or, Z.land_lor_distr_r, lor_eqb_0.
  apply negb_andb.
Qed.

Lemma contains_same x : contains x x = operator_bool x.
Proof.
  unfold contains, operator_and, OptionSet_raw. rewrite and_idempotent.
  destruct x. reflexivity.
Qed.

Lemma operator_bool_empty : operator_bool (@OptionSet_empty Flags bits) = false.
Proof. rewrite operator_bool_raw_value, (@raw_value_empty Flags bits). reflexivity. Qed.

End ContainsFacts.

(** ** What [contains] computes *)

(** [contains] answers true exactly when the two sets have a bit in common:
    some position below the storage width is set in both. *)
Theorem contains_shared_bit (Flags : Type) (bits : positive)
    (x y : OptionSet Flags bits) :
  contains x y = true <->
  exists i, 0 <= i < Z.pos bits /\
            Z.testbit (raw_value x) i = true /\
            Z.testbit (raw_value y) i = true.
Proof.
  unfold contains. rewrite operator_bool_bit. split.
  - intros [i [Hi Hbit]]. rewrite raw_value_and, Z.land_spec in Hbit.
    apply andb_true_iff in Hbit. exists i. tauto.
  - intros [i [Hi [Hx Hy]]]. exists i. split; [exact Hi |].
    rewrite raw_value_and, Z.land_spec, Hx, Hy. reflexivity.
Qed.

(** With the empty set on either side [contains] answers false. *)
Theorem contains_empty_operand (Flags : Type) (bits : positive)
    (x : OptionSet Flags bits) :
  contains x OptionSet_empty = false /\
  contains OptionSet_empty x = false.
Proof.
  rewrite !contains_raw_value, (@raw_value_empty Flags bits).
  rewrite Z.land_0_r, Z.land_0_l. split; reflexivity.
Qed.

(** [contains] distributes over the union on both sides: a union shares an
    option with [z] when one of its operands does. *)
Theorem contains_union (Flags : Type) (bits : positive)
    (x y z : OptionSet Flags bits) :
  contains (operator_or x y) z = contains x z || contains y z /\
  contains x (operator_or y z) = contains x y || contains x z.
Proof. split; [apply contains_or_l | apply contains_or_r]. Qed.

(** After [y] is removed from a set, by [operator-] or by [operator-=], the
    set does not contain [y]; and [x - y] contains [z] exactly when [x]
    contains [z - y]. *)
Theorem contains_after_difference (Flags : Type) (bits : positive)
    (x y z : OptionSet Flags bits) :
  contains (operator_sub x y) y = false /\
  contains (operator_sub_assign x y) y = false /\
  contains (operator_sub x y) z = contains x (operator_sub z y).
Proof.
  assert (Hdisjoint : operator_and (operator_sub x y) y = OptionSet_empty)
    by set_bitwise.
  assert (Hmove : operator_and (operator_sub x y) z =
                  operator_and x (operator_sub z y)) by set_bitwise.
  split; [| split].
  - unfold contains. rewrite Hdisjoint. apply operator_bool_empty.
  - rewrite operator_sub_assign_eq. unfold contains. rewrite Hdisjoint.
    apply operator_bool_empty.
  - unfold contains. rewrite Hmove. reflexivity.
Qed.

(** After a non-empty set [y] is added to a set, by [operator|] or by
    [operator|=], the set contains [y]. *)
Theorem contains_after_union (Flags : Type) (bits : positive)
    (x y : OptionSet Flags bits) :
  operator_bool y = true ->
  contains (operator_or x y) y = true /\
  contains (operator_or_assign x y) y = true.
Proof.
  intros Hy.
  assert (Hor : contains (operator_or x y) y = true).
  { rewrite contains_or_l, contains_same, Hy. apply orb_true_r. }
  split; [exact Hor |].
  rewrite operator_or_assign_eq. exact Hor.
Qed.

Lemma contains_after_union_witness :
  operator_bool (OptionSet_flag Write : OptionSet Permission 8) = true /\
  contains (operator_or (OptionSet_flag Read) (OptionSet_flag Write))
           (OptionSet_flag Write : OptionSet Permission 8) = true /\
  contains (operator_or_assign (OptionSet_flag Read) (OptionSet_flag Write))
           (OptionSet_flag Write : OptionSet Permission 8) = true.
Proof.
  split.
  - reflexivity.
  - apply (contains_after_union Permission 8). reflexivity.
Defined.

(** The conversion to [bool] of a union is the disjunction of the
    conversions: a union is non-empty exactly when an operand is. *)
Theorem operator_bool_union (Flags : Type) (bits : positive)
    (x y : OptionSet Flags bits) :
  operator_bool (operator_or x y) = operator_bool x || operator_bool y.
Proof.
  rewrite !operator_bool_raw_value, raw_value_or, lor_eqb_0.
  apply negb_andb.
Qed.

(** The difference [x - y] converts to [false] exactly when every option of
    [x] is an option of [y], that is when [x & y] is [x]. *)
Theorem difference_empty_iff_included (Flags : Type) (bits : positive)
    (x y : OptionSet Flags bits) :
  operator_bool (operator_sub x y) = false <-> operator_and x y = x.
Proof.
  rewrite operator_bool_false. split.
  - intros Hempty.
    assert (Hparts : operator_or (operator_sub x y) (operator_and x y) = x)
      by set_bitwise.
    rewrite Hempty in Hparts. rewrite <- Hparts at 2. set_bitwise.
  - intros Hincluded. rewrite <- Hincluded. set_bitwise.
Qed.

(** ** Sets of single enumerators *)

(** For an enumerator whose value is the power of two [2 ^ i], with [i]
    below the storage width, [contains] of the enumerator's set reads bit
    [i] of the storage. *)
Theorem contains_single_flag (Flags : Type) (FlagsEnum : Enumeration Flags)
    (bits : positive) (x : OptionSet Flags bits) (flag : Flags) (i : Z) :
  0 <= i < Z.pos bits ->
  underlying flag = 2 ^ i ->
  contains x (OptionSet_flag flag) = Z.testbit (raw_value x) i.
Proof. intros Hi Hflag. apply contains_flag_testbit; assumption. Qed.

Lemma contains_single_flag_witness :
  0 <= 1 < Z.pos 8 /\
  underlying Write = 2 ^ 1 /\
  contains (ReadWrite 8) (OptionSet_flag Write) =
  Z.testbit (raw_value (ReadWrite 8)) 1.
Proof.
  split; [lia | split; [reflexivity |]].
  apply (contains_single_flag Permission Permission_enum 8); [lia | reflexivity].
Defined.

(** For such an enumerator, [contains] is inclusion: it answers true exactly
    when the intersection with the enumerator's set is that whole set. *)
Theorem contains_flag_iff_included (Flags : Type) (FlagsEnum : Enumeration Flags)
    (bits : positive) (x : OptionSet Flags bits) (flag : Flags) (i : Z) :
  0 <= i < Z.pos bits ->
  underlying flag = 2 ^ i ->
  (contains x (OptionSet_flag flag) = true <->
   operator_and x (OptionSet_flag flag) = OptionSet_flag flag).
Proof.
  intros Hi Hflag. split.
  - intros Hcontains.
    rewrite (contains_flag_testbit x flag i Hi Hflag) in Hcontains.
    apply OptionSet_eq. apply storage_bits_eq. intros j Hj.
    change (Z.testbit (raw_value (operator_and x (OptionSet_flag flag))) j =
            Z.testbit (raw_value (OptionSet_flag flag : OptionSet Flags bits)) j).
    rewrite raw_value_and, Z.land_spec, (testbit_flag flag i j Hi Hflag).
    destruct (Z.eqb_spec i j) as [<- | Hne].
    + rewrite Hcontains. reflexivity.
    + apply andb_false_r.
  - intros Hincluded. unfold contains. rewrite Hincluded.
    apply operator_bool_bit. exists i. split; [exact Hi |].
    rewrite (testbit_flag flag i i Hi Hflag). apply Z.eqb_refl.
Qed.

Lemma contains_flag_iff_included_witness :
  0 <= 1 < Z.pos 8 /\
  underlying Write = 2 ^ 1 /\
  (contains (ReadWrite 8) (OptionSet_flag Write) = true <->
   operator_and (ReadWrite 8) (OptionSet_flag Write) = OptionSet_flag Write).
Proof.
  split; [lia | split; [reflexivity |]].
  apply (contains_flag_iff_included Permission Permission_enum 8 _ Write 1);
    [lia | reflexivity].
Defined.

(** Adding or removing one enumerator, by [operator|=] or [operator-=],
    does not change the answer of [contains] for an enumerator of another
    bit. *)
Theorem other_flag_unaffected (Flags : Type) (FlagsEnum : Enumeration Flags)
    (bits : positive) (x : OptionSet Flags bits) (f g : Flags) (i j : Z) :
  0 <= i < Z.pos bits ->
  0 <= j < Z.pos bits ->
  underlying f = 2 ^ i ->
  underlying g = 2 ^ j ->
  i <> j ->
  contains (operator_or_assign x (OptionSet_flag f)) (OptionSet_flag g) =
    contains x (OptionSet_flag g) /\
  contains (operator_sub_assign x (OptionSet_flag f)) (OptionSet_flag g) =
    contains x (OptionSet_flag g).
Proof.
  intros Hi Hj Hf Hg Hne.
  rewrite !(fun s => contains_flag_testbit s g j Hj Hg).
  pose proof (testbit_flag (bits := bits) f i j Hi Hf) as Hbit.
  replace (i =? j) with false in Hbit by (symmetry; apply Z.eqb_neq; exact Hne).
  unfold raw_value, operator_StorageType, OptionSet_flag in Hbit.
  cbn [Storage] in Hbit. unfold_members.
  rewrite testbit_or, testbit_and, testbit_not, Hbit by exact Hj.
  split; [apply orb_false_r | apply andb_true_r].
Qed.

Lemma other_flag_unaffected_witness :
  0 <= 1 < Z.pos 8 /\ 0 <= 2 < Z.pos 8 /\
  underlying Write = 2 ^ 1 /\ underlying Execute = 2 ^ 2 /\ 1 <> 2 /\
  contains (operator_or_assign (ReadWrite 8) (OptionSet_flag Write))
           (OptionSet_flag Execute) =
    contains (ReadWrite 8) (OptionSet_flag Execute) /\
  contains (operator_sub_assign (ReadWrite 8) (OptionSet_flag Write))
           (OptionSet_flag Execute) =
    contains (ReadWrite 8) (OptionSet_flag Execute).
Proof.
  split; [lia | split; [lia | split; [reflexivity | split; [reflexivity |
    split; [lia |]]]]].
  apply (other_flag_unaffected Permission Permission_enum 8 _ Write Execute 1 2);
    [lia | lia | reflexivity | reflexivity | lia].
Defined.

(** The set of an enumerator whose value is representable in the storage
    type has that value as raw value, so representable enumerators with
    equal sets have equal values. *)
Theorem flag_raw_value_representable (Flags : Type)
    (FlagsEnum : Enumeration Flags) (bits : positive) (f g : Flags) :
  0 <= underlying f < 2 ^ Z.pos bits ->
  0 <= underlying g < 2 ^ Z.pos bits ->
  raw_value (OptionSet_flag f : OptionSet Flags bits) = underlying f /\
  (OptionSet_flag f = (OptionSet_flag g : OptionSet Flags bits) ->
   underlying f = underlying g).
Proof.
  intros Hf Hg.
  assert (Hvalue : forall h : Flags, 0 <= underlying h < 2 ^ Z.pos bits ->
             raw_value (OptionSet_flag h : OptionSet Flags bits) = underlying h).
  { intros h Hh. rewrite raw_value_flag. apply Z.mod_small. exact Hh. }
  split; [apply Hvalue; exact Hf |].
  intros Heq. rewrite <- (Hvalue f Hf), <- (Hvalue g Hg), Heq. reflexivity.
Qed.

Lemma flag_raw_value_representable_witness :
  0 <= underlying Write < 2 ^ Z.pos 8 /\
  0 <= underlying Execute < 2 ^ Z.pos 8 /\
  raw_value (OptionSet_flag Write : OptionSet Permission 8) = underlying Write /\
  (OptionSet_flag Write = (OptionSet_flag Execute : OptionSet Permission 8) ->
   underlying Write = underlying Execute).
Proof.
  assert (Hw : 0 <= underlying Write < 2 ^ Z.pos 8)
    by (cbv [underlying Permission_enum]; lia).
  assert (He : 0 <= underlying Execute < 2 ^ Z.pos 8)
    by (cbv [underlying Permission_enum]; lia).
  split; [exact Hw | split; [exact He |]].
  apply (flag_raw_value_representable Permission Permission_enum 8 Write Execute);
    assumption.
Defined.

(** ** Raw values as numbers *)

(** The raw value of the complement is [2 ^ bits - 1] minus the raw value:
    every bit of the storage type is flipped, also those no enumerator
    names. *)
Theorem complement_raw_value (Flags : Type) (bits : positive)
    (x : OptionSet Flags bits) :
  raw_value (operator_not x) = 2 ^ Z.pos bits - 1 - raw_value x.
Proof.
  rewrite raw_value_not. pose proof (raw_value_range x) as Hrange.
  symmetry. apply (Z.mod_unique _ _ (-1)).
  - left. lia.
  - unfold Z.lnot. lia.
Qed.

(** The raw values of union and intersection add up to those of the
    operands, and those of difference and intersection to that of the left
    operand. *)
Theorem raw_value_sums (Flags : Type) (bits : positive)
    (x y : OptionSet Flags bits) :
  raw_value (operator_or x y) + raw_value (operator_and x y) =
    raw_value x + raw_value y /\
  raw_value (operator_sub x y) + raw_value (operator_and x y) = raw_value x.
Proof.
  assert (Hsum : forall s t : OptionSet Flags bits,
             raw_value (operator_or s t) + raw_value (operator_and s t) =
             raw_value s + raw_value t).
  { intros s t. rewrite raw_value_or, raw_value_and. apply Z.add_lor_land. }
  split; [apply Hsum |].
  assert (Hparts : operator_or (operator_sub x y) (operator_and x y) = x)
    by set_bitwise.
  assert (Hdisjoint : operator_and (operator_sub x y) (operator_and x y) =
                      OptionSet_empty) by set_bitwise.
  rewrite <- (Hsum (operator_sub x y) (operator_and x y)).
  rewrite Hparts, Hdisjoint, (@raw_value_empty Flags bits). lia.
Qed.

(** As numbers, an intersection or a difference is at most its left operand
    and a union is at least each operand and below [2 ^ bits]. *)
Theorem raw_value_bounds (Flags : Type) (bits : positive)
    (x y : OptionSet Flags bits) :
  raw_value (operator_and x y) <= raw_value x /\
  raw_value (operator_sub x y) <= raw_value x /\
  raw_value x <= raw_value (operator_or x y) /\
  raw_value y <= raw_value (operator_or x y) /\
  raw_value (operator_or x y) < 2 ^ Z.pos bits.
Proof.
  assert (Hparts : forall s t : OptionSet Flags bits,
             raw_value (operator_sub s t) + raw_value (operator_and s t) =
             raw_value s).
  { intros s t.
    assert (Hor : operator_or (operator_sub s t) (operator_and s t) = s)
      by set_bitwise.
    assert (Hand : operator_and (operator_sub s t) (operator_and s t) =
                   OptionSet_empty) by set_bitwise.
    pose proof (Z.add_lor_land (raw_value (operator_sub s t))
                               (raw_value (operator_and s t))) as Hsum.
    rewrite <- raw_value_or, <- raw_value_and in Hsum.
    rewrite Hor, Hand, (@raw_value_empty Flags bits) in Hsum. lia. }
  assert (Hsum : raw_value (operator_or x y) + raw_value (operator_and x y) =
                 raw_value x + raw_value y).
  { rewrite raw_value_or, raw_value_and. apply Z.add_lor_land. }
  assert (Hcomm : operator_and y x = operator_and x y) by set_bitwise.
  pose proof (Hparts x y) as Hx. pose proof (Hparts y x) as Hy.
  rewrite Hcomm in Hy.
  pose proof (raw_value_range (operator_sub x y)).
  pose proof (raw_value_range (operator_sub y x)).
  pose proof (raw_value_range (operator_and x y)).
  pose proof (raw_value_range (operator_or x y)).
  lia.
Qed.
